(** * Series S = sum cos(n x)/n : a model of [task_package/zad.py]

    Python [int] values are modelled as [Z] and exceptions by the [result]
    type.  The unbounded [while True] loop is a fuel-indexed function, the
    bounded [while n <= end_n] loops are defined by well-founded recursion,
    and the worker threads are atomic tasks run in an arbitrary order (a
    schedule).

    Python [float] values are modelled twice.  The first model takes them as
    real numbers ([R]); it carries the results that do not depend on
    floating-point arithmetic: the partition of the index range, the empty
    range, the control value and the analytical sum.  The second model
    (module [B64]) takes them as IEEE binary64 values; it carries the
    results about the summation itself, where overflow to an infinity, the
    exceptions of [math.cos], [math.ceil] and of the conversion of an [int],
    and the rounding of every addition matter. *)

From Stdlib Require Import ZArith List Lia Reals Lra Permutation Floats.
From stdpp Require Import base list.
From Equations Require Import Equations.
Import ListNotations.

Local Open Scope Z_scope.

(** ** Python primitives used by the module *)

Module Py.

Inductive exn : Set := ZeroDivisionError | ValueError | IndexError | OverflowError.

Inductive result (A : Type) : Type :=
| Ok (a : A)
| Raise (e : exn).
Arguments Ok {A} a.
Arguments Raise {A} e.

Definition bind {A B : Type} (m : result A) (k : A -> result B) : result B :=
  match m with
  | Ok a => k a
  | Raise e => Raise e
  end.

(** [a / b] on floats (an [int] operand is converted first). *)
Definition float_div (a b : R) : result R :=
  if Req_dec_T b 0 then Raise ZeroDivisionError else Ok (a / b)%R.

(** [a // b] on ints: floor division, which is [Z.div]. *)
Definition floordiv (a b : Z) : result Z :=
  if b =? 0 then Raise ZeroDivisionError else Ok (a / b).

(** [abs(t) < epsilon] *)
Definition abs_lt (t epsilon : R) : bool :=
  if Rlt_dec (Rabs t) epsilon then true else false.

(** [int(math.ceil(r))] *)
Definition math_ceil (r : R) : Z := Zceil r.

(** [math.log(y)]: a [ValueError] (math domain error) unless [y > 0]. *)
Definition math_log (y : R) : result R :=
  if Rlt_dec 0 y then Ok (ln y) else Raise ValueError.

(** [math.isclose(a, b)] with its defaults [rel_tol=1e-09], [abs_tol=0.0]. *)
Definition rel_tol : R := 1e-9.
Definition abs_tol : R := 0.

Definition isclose (a b : R) : bool :=
  if Req_dec_T a b then true
  else
    let diff := Rabs (b - a) in
    if Rle_dec diff (Rabs (rel_tol * b)) then true
    else if Rle_dec diff (Rabs (rel_tol * a)) then true
    else if Rle_dec diff abs_tol then true
    else false.

(** [range(n)] *)
Definition range (n : Z) : list Z := map Z.of_nat (seq 0 (Z.to_nat n)).

(** [[v] * n] *)
Definition repeat_list {A : Type} (v : A) (n : Z) : list A :=
  replicate (Z.to_nat n) v.

(** [l[idx] = v]: negative indices count from the end, anything outside
    [-len(l) <= idx < len(l)] is an [IndexError]. *)
Definition setitem {A : Type} (l : list A) (idx : Z) (v : A) : result (list A) :=
  let len := Z.of_nat (length l) in
  if (0 <=? idx) && (idx <? len) then Ok (<[Z.to_nat idx := v]> l)
  else if (- len <=? idx) && (idx <? 0) then Ok (<[Z.to_nat (len + idx) := v]> l)
  else Raise IndexError.

(** [sum(l)]: left to right, from the start value [0]. *)
Definition sum (l : list R) : R := fold_left Rplus l 0%R.

(** [ThreadPoolExecutor(max_workers=n)]: the constructor raises
    [ValueError] when [max_workers <= 0]. *)
Definition ThreadPoolExecutor (max_workers : Z) : result unit :=
  if max_workers <=? 0 then Raise ValueError else Ok tt.

End Py.

Import Py.

Notation "'do' x <- m ; k" := (bind m (fun x => k))
  (at level 10, x name, m at level 100, k at level 200).

(** ** The module [task_package/zad.py] *)

(** [math.cos(n * x) / n] with [n : int]; dividing by [n = 0] raises. *)
Definition term (x : R) (n : Z) : result R :=
  float_div (cos (IZR n * x)) (IZR n).

(** How a bounded summation loop was left: its guard [n <= end_n] failed,
    or the [break] was taken. *)
Inductive loop_exit : Set := GuardFailed | Broke.

(** The loop of [calculate_partial_sum]:
    [while n <= end_n: term = ...; if abs(term) < epsilon: break;
     partial_sum += term; n += 1].
    The final values of [partial_sum] and [n] are returned, with the exit taken. *)
Equations? partial_loop (x : R) (end_n : Z) (epsilon : R) (partial_sum : R) (n : Z)
  : result (R * Z * loop_exit) by wf (Z.to_nat (end_n + 1 - n)) lt :=
  partial_loop x end_n epsilon partial_sum n with Z_le_dec n end_n := {
    | right _ := Ok (partial_sum, n, GuardFailed)
    | left _ with term x n := {
        | Raise e := Raise e
        | Ok t with abs_lt t epsilon := {
            | true := Ok (partial_sum, n, Broke)
            | false := partial_loop x end_n epsilon (partial_sum + t)%R (n + 1) } } }.
Proof. lia. Qed.

Definition calculate_partial_sum (x : R) (start_n end_n : Z) (epsilon : R)
    (results_list : list R) (idx : Z) : result (R * list R) :=
  do st <- partial_loop x end_n epsilon 0%R start_n;
  let partial_sum := fst (fst st) in
  do results_list' <- setitem results_list idx partial_sum;
  Ok (partial_sum, results_list').

(** The [while True] loop of [calculate_series_sum_single_threaded]; [None]
    when [fuel] iterations did not reach the [break]. *)
Fixpoint single_loop (fuel : nat) (x epsilon : R) (total_sum : R) (n : Z)
  : option (result (R * Z)) :=
  match fuel with
  | O => None
  | S fuel' =>
      match term x n with
      | Raise e => Some (Raise e)
      | Ok t =>
          if abs_lt t epsilon then Some (Ok (total_sum, n))
          else single_loop fuel' x epsilon (total_sum + t)%R (n + 1)
      end
  end.

Definition calculate_series_sum_single_threaded (fuel : nat) (x epsilon : R)
  : option (result (R * Z)) :=
  single_loop fuel x epsilon 0%R 1.

(** [int(math.ceil(1 / epsilon)) + 100] (the first line of both parallel
    functions). *)
Definition series_bound (epsilon : R) : result Z :=
  do inv <- float_div 1 epsilon;
  Ok (math_ceil inv + 100).

(** The [args] of the threads created by the [for i in range(num_threads)]
    loop of [calculate_series_sum_multi_threaded]: [(start_n, end_n, i)]. *)
Definition thread_args (max_n chunk_size num_threads : Z) : list (Z * Z * Z) :=
  map (fun i =>
         (i * chunk_size + 1,
          (if i <? num_threads - 1 then (i + 1) * chunk_size else max_n),
          i))
      (range num_threads).

(** One thread running [calculate_partial_sum] on the shared list.  The only
    shared access is the final store, so a thread is one atomic step; an
    exception in a thread's target ends that thread only and the list is
    left as it was. *)
Definition run_thread (x epsilon : R) (args : Z * Z * Z) (results : list R) : list R :=
  let '(start_n, end_n, i) := args in
  match calculate_partial_sum x start_n end_n epsilon results i with
  | Ok (_, results') => results'
  | Raise _ => results
  end.

(** The started threads complete in the order [sched] (thread numbers). *)
Definition run_threads (x epsilon : R) (threads : list (Z * Z * Z))
    (sched : list nat) (results : list R) : list R :=
  fold_left
    (fun rs k =>
       match threads !! k with
       | Some args => run_thread x epsilon args rs
       | None => rs
       end)
    sched results.

Definition calculate_series_sum_multi_threaded (sched : list nat)
    (x epsilon : R) (num_threads : Z) : result R :=
  do max_n <- series_bound epsilon;
  do chunk_size <- floordiv max_n num_threads;
  let results := repeat_list 0%R num_threads in
  let threads := thread_args max_n chunk_size num_threads in
  let results := run_threads x epsilon threads sched results in
  Ok (sum results).

(** The loop of the nested function [worker] of [calculate_with_threadpool]
    ([x] and [epsilon] are captured from the enclosing call). *)
Equations? worker_loop (x epsilon : R) (end_n : Z) (partial_sum : R) (n : Z)
  : result (R * Z * loop_exit) by wf (Z.to_nat (end_n + 1 - n)) lt :=
  worker_loop x epsilon end_n partial_sum n with Z_le_dec n end_n := {
    | right _ := Ok (partial_sum, n, GuardFailed)
    | left _ with term x n := {
        | Raise e := Raise e
        | Ok t with abs_lt t epsilon := {
            | true := Ok (partial_sum, n, Broke)
            | false := worker_loop x epsilon end_n (partial_sum + t)%R (n + 1) } } }.
Proof. lia. Qed.

Definition worker (x epsilon : R) (start_n end_n : Z) : result R :=
  do st <- worker_loop x epsilon end_n 0%R start_n;
  Ok (fst (fst st)).

(** The [(start_n, end_n)] pairs submitted to the executor. *)
Definition submitted_ranges (max_n chunk_size num_threads : Z) : list (Z * Z) :=
  map (fun i =>
         (i * chunk_size + 1,
          (if i <? num_threads - 1 then (i + 1) * chunk_size else max_n)))
      (range num_threads).

(** [sum(future.result() for future in futures)]: the results are added in
    submission order; the first future whose worker raised re-raises. *)
Fixpoint sum_futures (futures : list (result R)) (acc : R) : result R :=
  match futures with
  | [] => Ok acc
  | f :: rest => do v <- f; sum_futures rest (acc + v)%R
  end.

Definition calculate_with_threadpool (x epsilon : R) (num_threads : Z) : result R :=
  do max_n <- series_bound epsilon;
  do chunk_size <- floordiv max_n num_threads;
  do executor <- ThreadPoolExecutor num_threads;
  let futures :=
    map (fun r => worker x epsilon (fst r) (snd r))
        (submitted_ranges max_n chunk_size num_threads) in
  sum_futures futures 0%R.

(** [-math.log(2 * math.sin(x / 2))] *)
Definition get_control_value (x : R) : result R :=
  do l <- math_log (2 * sin (x / 2));
  Ok (- l)%R.

Definition calculate_analytical_sum (x : R) : result R :=
  if isclose x PI then
    do l <- math_log 2;
    Ok (- l)%R
  else get_control_value x.

(** ** Specification-side notions *)

(** The series term [cos(n x)/n] as a real number. *)
Definition series_term (x : R) (n : Z) : R := (cos (IZR n * x) / IZR n)%R.





(** ** The summation functions on binary64 floats

    The same functions with Python's [float] as IEEE binary64 (the kernel's
    primitive floats): products overflow to an infinity, [math.cos] raises
    at an infinity, an [int] too large for a float raises, and sums are
    rounded, so their grouping matters.  The C library's [cos] and the
    builtin [sum] belong to the platform and are parameters. *)

Module B64.

Record platform : Type := {
  libm_cos : float -> float;
  builtin_sum : list float -> float
}.

(** An [int] operand of float arithmetic is converted to the nearest float
    (ties to even); [OverflowError] when that is out of range. *)
Definition float_of_int (n : Z) : result float :=
  match binary_normalize prec emax n 0 false with
  | S754_infinity _ => Raise OverflowError
  | sf => Ok (SF2Prim sf)
  end.

(** [n * x] with [n : int] and [x : float]. *)
Definition int_mul_float (n : Z) (x : float) : result float :=
  do fn <- float_of_int n;
  Ok (PrimFloat.mul fn x).

(** [a / n] with [a : float] and [n : int]. *)
Definition float_div_int (a : float) (n : Z) : result float :=
  do fn <- float_of_int n;
  if PrimFloat.is_zero fn then Raise ZeroDivisionError
  else Ok (PrimFloat.div a fn).

(** [n / b] with [n : int] and [b : float]. *)
Definition int_div_float (n : Z) (b : float) : result float :=
  do fn <- float_of_int n;
  if PrimFloat.is_zero b then Raise ZeroDivisionError
  else Ok (PrimFloat.div fn b).

(** [abs(t) < epsilon] (false when either is NaN). *)
Definition abs_lt (t epsilon : float) : bool :=
  PrimFloat.ltb (PrimFloat.abs t) epsilon.

(** [int(math.ceil(v))]: [ValueError] at NaN, [OverflowError] at an
    infinity, otherwise the exact ceiling of the float's value. *)
Definition math_ceil (v : float) : result Z :=
  match Prim2SF v with
  | S754_nan => Raise ValueError
  | S754_infinity _ => Raise OverflowError
  | S754_zero _ => Ok 0
  | S754_finite s m e =>
      let mant := if s then Z.neg m else Z.pos m in
      if 0 <=? e then Ok (mant * 2 ^ e)
      else Ok (- ((- mant) / 2 ^ (- e)))
  end.

Section Platform.

Variable P : platform.

(** [math.cos(v)]: the C library's value, a [ValueError] (math domain
    error) at an infinity. *)
Definition math_cos (v : float) : result float :=
  if PrimFloat.is_infinity v then Raise ValueError else Ok (libm_cos P v).

(** [sum(l)] of floats; the empty sum is the start value 0 (the [int] 0,
    which equals 0.0). *)
Definition py_sum (l : list float) : float :=
  match l with
  | [] => PrimFloat.zero
  | _ => builtin_sum P l
  end.

(** [math.cos(n * x) / n] *)
Definition term (x : float) (n : Z) : result float :=
  do prod <- int_mul_float n x;
  do c <- math_cos prod;
  float_div_int c n.

Equations? partial_loop (x : float) (end_n : Z) (epsilon : float)
    (partial_sum : float) (n : Z)
  : result (float * Z * loop_exit) by wf (Z.to_nat (end_n + 1 - n)) lt :=
  partial_loop x end_n epsilon partial_sum n with Z_le_dec n end_n := {
    | right _ := Ok (partial_sum, n, GuardFailed)
    | left _ with term x n := {
        | Raise e := Raise e
        | Ok t with abs_lt t epsilon := {
            | true := Ok (partial_sum, n, Broke)
            | false :=
                partial_loop x end_n epsilon (PrimFloat.add partial_sum t) (n + 1) } } }.
Proof. lia. Qed.

Definition calculate_partial_sum (x : float) (start_n end_n : Z) (epsilon : float)
    (results_list : list float) (idx : Z) : result (float * list float) :=
  do st <- partial_loop x end_n epsilon PrimFloat.zero start_n;
  let partial_sum := fst (fst st) in
  do results_list' <- setitem results_list idx partial_sum;
  Ok (partial_sum, results_list').

Fixpoint single_loop (fuel : nat) (x epsilon : float) (total_sum : float) (n : Z)
  : option (result (float * Z)) :=
  match fuel with
  | O => None
  | S fuel' =>
      match term x n with
      | Raise e => Some (Raise e)
      | Ok t =>
          if abs_lt t epsilon then Some (Ok (total_sum, n))
          else single_loop fuel' x epsilon (PrimFloat.add total_sum t) (n + 1)
      end
  end.

Definition calculate_series_sum_single_threaded (fuel : nat) (x epsilon : float)
  : option (result (float * Z)) :=
  single_loop fuel x epsilon PrimFloat.zero 1.

(** [int(math.ceil(1 / epsilon)) + 100] *)
Definition series_bound (epsilon : float) : result Z :=
  do inv <- int_div_float 1 epsilon;
  do c <- math_ceil inv;
  Ok (c + 100).

Definition run_thread (x epsilon : float) (args : Z * Z * Z) (results : list float)
  : list float :=
  let '(start_n, end_n, i) := args in
  match calculate_partial_sum x start_n end_n epsilon results i with
  | Ok (_, results') => results'
  | Raise _ => results
  end.

Definition run_threads (x epsilon : float) (threads : list (Z * Z * Z))
    (sched : list nat) (results : list float) : list float :=
  fold_left
    (fun rs k =>
       match threads !! k with
       | Some args => run_thread x epsilon args rs
       | None => rs
       end)
    sched results.

Definition calculate_series_sum_multi_threaded (sched : list nat)
    (x epsilon : float) (num_threads : Z) : result float :=
  do max_n <- series_bound epsilon;
  do chunk_size <- floordiv max_n num_threads;
  let results := repeat_list PrimFloat.zero num_threads in
  let threads := thread_args max_n chunk_size num_threads in
  let results := run_threads x epsilon threads sched results in
  Ok (py_sum results).

Equations? worker_loop (x epsilon : float) (end_n : Z) (partial_sum : float) (n : Z)
  : result (float * Z * loop_exit) by wf (Z.to_nat (end_n + 1 - n)) lt :=
  worker_loop x epsilon end_n partial_sum n with Z_le_dec n end_n := {
    | right _ := Ok (partial_sum, n, GuardFailed)
    | left _ with term x n := {
        | Raise e := Raise e
        | Ok t with abs_lt t epsilon := {
            | true := Ok (partial_sum, n, Broke)
            | false :=
                worker_loop x epsilon end_n (PrimFloat.add partial_sum t) (n + 1) } } }.
Proof. lia. Qed.

Definition worker (x epsilon : float) (start_n end_n : Z) : result float :=
  do st <- worker_loop x epsilon end_n PrimFloat.zero start_n;
  Ok (fst (fst st)).

(** [future.result() for future in futures]: the values in submission
    order, up to the first future whose worker raised. *)
Fixpoint future_results (futures : list (result float)) : result (list float) :=
  match futures with
  | [] => Ok []
  | f :: rest => do v <- f; do vs <- future_results rest; Ok (v :: vs)
  end.

Definition calculate_with_threadpool (x epsilon : float) (num_threads : Z)
  : result float :=
  do max_n <- series_bound epsilon;
  do chunk_size <- floordiv max_n num_threads;
  do executor <- ThreadPoolExecutor num_threads;
  let futures :=
    map (fun r => worker x epsilon (fst r) (snd r))
        (submitted_ranges max_n chunk_size num_threads) in
  do values <- future_results futures;
  Ok (py_sum values).

(** *** What one index does to a summation loop *)

(** The term of index [k] is evaluated and below [epsilon]: the loop stops. *)
Definition small (x epsilon : float) (k : Z) : Prop :=
  exists t, term x k = Ok t /\ abs_lt t epsilon = true.

(** The term of index [k] is evaluated and added. *)
Definition added (x epsilon : float) (k : Z) : Prop :=
  exists t, term x k = Ok t /\ abs_lt t epsilon = false.

(** The left-to-right floating-point sum [acc + t(a) + ... + t(a+count-1)]. *)
Fixpoint sum_terms (x : float) (acc : float) (a : Z) (count : nat) : result float :=
  match count with
  | O => Ok acc
  | S c => do t <- term x a; sum_terms x (PrimFloat.add acc t) (a + 1) c
  end.


End Platform.

(** A platform for example runs at [x = 0.0]: its [cos] is the C library's
    at the argument 0 (the only one such runs evaluate), its [sum] adds left
    to right. *)
Definition zero_argument_platform : platform :=
  {| libm_cos := fun _ => PrimFloat.one;
     builtin_sum := fun l => fold_left PrimFloat.add l PrimFloat.zero |}.

(** 1e308, 0.01 and 1e-7 as Python reads them. *)
Definition f_1e308 : float := 0x1.1ccf385ebc8ap+1023%float.
Definition f_0_01 : float := 0x1.47ae147ae147bp-7%float.
Definition f_1e_7 : float := 0x1.ad7f29abcaf48p-24%float.

(** [math.cos(1e308)] as CPython prints it on Linux: -0.8913089376870335. *)
Definition cos_1e308 : float := (-0x1.c859a523ff229p-1)%float.

End B64.

(** ** Basic facts about the primitives *)

Lemma abs_lt_true (t epsilon : R) : abs_lt t epsilon = true <-> (Rabs t < epsilon)%R.
Proof.
  unfold abs_lt. destruct (Rlt_dec (Rabs t) epsilon); split; intros; auto; discriminate.
Qed.

Lemma abs_lt_false (t epsilon : R) : abs_lt t epsilon = false <-> ~ (Rabs t < epsilon)%R.
Proof.
  unfold abs_lt. destruct (Rlt_dec (Rabs t) epsilon); split; intros; auto;
    try discriminate; contradiction.
Qed.

Lemma float_div_ok (a b : R) : b <> 0%R -> float_div a b = Ok (a / b)%R.
Proof.
  intros Hb. unfold float_div. destruct (Req_dec_T b 0); [contradiction | reflexivity].
Qed.

Lemma term_ok (x : R) (n : Z) : n <> 0 -> term x n = Ok (series_term x n).
Proof.
  intros Hn. unfold term, series_term. apply float_div_ok.
  intros H. apply Hn. now apply eq_IZR.
Qed.




Lemma series_bound_pos (epsilon : R) : (0 < epsilon)%R -> 101 <= Zceil (1 / epsilon) + 100.
Proof.
  intros He.
  assert (H : (0 < 1 / epsilon)%R) by (apply Rdiv_lt_0_compat; lra).
  destruct (Zceil_bound (1 / epsilon)) as [_ Hub].
  assert (Hlt : (0 < IZR (Zceil (1 / epsilon)))%R) by lra.
  apply lt_IZR in Hlt. lia.
Qed.

(** ** The bounded loops *)

Lemma partial_loop_step (x : R) (end_n : Z) (epsilon s : R) (n : Z) :
  partial_loop x end_n epsilon s n =
  if Z_le_dec n end_n then
    match term x n with
    | Raise e => Raise e
    | Ok t =>
        if abs_lt t epsilon then Ok (s, n, Broke)
        else partial_loop x end_n epsilon (s + t)%R (n + 1)
    end
  else Ok (s, n, GuardFailed).
Proof.
  simp partial_loop.
  destruct (Z_le_dec n end_n); simpl; [|reflexivity].
  destruct (term x n); simpl; [|reflexivity].
  destruct (abs_lt a epsilon); reflexivity.
Qed.

Lemma worker_loop_step (x epsilon : R) (end_n : Z) (s : R) (n : Z) :
  worker_loop x epsilon end_n s n =
  if Z_le_dec n end_n then
    match term x n with
    | Raise e => Raise e
    | Ok t =>
        if abs_lt t epsilon then Ok (s, n, Broke)
        else worker_loop x epsilon end_n (s + t)%R (n + 1)
    end
  else Ok (s, n, GuardFailed).
Proof.
  simp worker_loop.
  destruct (Z_le_dec n end_n); simpl; [|reflexivity].
  destruct (term x n); simpl; [|reflexivity].
  destruct (abs_lt a epsilon); reflexivity.
Qed.

(** The two copies of the summation loop compute the same thing. *)
Lemma worker_loop_partial_loop (x epsilon : R) (end_n : Z) (s : R) (n : Z) :
  worker_loop x epsilon end_n s n = partial_loop x end_n epsilon s n.
Proof.
  remember (Z.to_nat (end_n + 1 - n)) as k eqn:Hk.
  revert s n Hk. induction k as [k IH] using lt_wf_ind. intros s n Hk.
  rewrite worker_loop_step, partial_loop_step.
  destruct (Z_le_dec n end_n) as [Hle|]; [|reflexivity].
  destruct (term x n) as [t|]; [|reflexivity].
  destruct (abs_lt t epsilon); [reflexivity|].
  apply (IH (Z.to_nat (end_n + 1 - (n + 1)))); [lia | reflexivity].
Qed.

(** An empty range: the guard fails at once. *)
Lemma partial_loop_empty (x : R) (end_n : Z) (epsilon s : R) (n : Z) :
  end_n < n -> partial_loop x end_n epsilon s n = Ok (s, n, GuardFailed).
Proof.
  intros H. rewrite partial_loop_step.
  destruct (Z_le_dec n end_n); [lia | reflexivity].
Qed.

Lemma setitem_in_range {A : Type} (l : list A) (idx : Z) (v : A) :
  0 <= idx < Z.of_nat (length l) -> setitem l idx v = Ok (<[Z.to_nat idx := v]> l).
Proof.
  intros [H0 H1]. unfold setitem.
  apply Z.leb_le in H0. apply Z.ltb_lt in H1. now rewrite H0, H1.
Qed.

(** ** The partition of the index range *)


Lemma lookup_range (n : Z) (i : nat) (v : Z) :
  range n !! i = Some v <-> v = Z.of_nat i /\ (i < Z.to_nat n)%nat.
Proof.
  unfold range. change (map Z.of_nat ?l) with (Z.of_nat <$> l).
  rewrite list_lookup_fmap. split.
  - intros H. destruct (seq 0 (Z.to_nat n) !! i) as [j|] eqn:Hj; [|discriminate].
    apply lookup_seq in Hj as [-> Hlt]. simpl in H. split; [congruence | assumption].
  - intros [-> Hlt]. now rewrite lookup_seq_lt.
Qed.




Lemma lookup_submitted_ranges (max_n chunk_size num_threads : Z) (i : nat) (r : Z * Z) :
  submitted_ranges max_n chunk_size num_threads !! i = Some r <->
  (i < Z.to_nat num_threads)%nat
  /\ r = (Z.of_nat i * chunk_size + 1,
          if Z.of_nat i <? num_threads - 1 then (Z.of_nat i + 1) * chunk_size
          else max_n).
Proof.
  unfold submitted_ranges. change (map ?f ?l) with (f <$> l).
  rewrite list_lookup_fmap. split.
  - intros H. destruct (range num_threads !! i) as [v|] eqn:Hv; [|discriminate].
    apply lookup_range in Hv as [-> Hlt]. simpl in H. split; [assumption | congruence].
  - intros [Hlt ->].
    assert (Hv : range num_threads !! i = Some (Z.of_nat i)) by now apply lookup_range.
    now rewrite Hv.
Qed.


Section Partition.

Variables max_n num_threads : Z.
Hypothesis max_n_nonneg : 0 <= max_n.
Hypothesis num_threads_pos : 1 <= num_threads.

Local Abbreviation chunk_size := (max_n / num_threads).
Local Abbreviation chunks := (submitted_ranges max_n chunk_size num_threads).






End Partition.

(** ** The control value *)

Lemma rel_tol_pos : (0 < rel_tol)%R.
Proof. unfold rel_tol. lra. Qed.

(** [math.isclose] with its default tolerances is the relative test
    [|a - b| <= 1e-9 * max(|a|, |b|)]. *)
Lemma isclose_spec (a b : R) :
  isclose a b = true <-> (Rabs (a - b) <= rel_tol * Rmax (Rabs a) (Rabs b))%R.
Proof.
  assert (Hpos := rel_tol_pos).
  assert (Ha := Rabs_pos a). assert (Hb := Rabs_pos b).
  assert (Hmax_a := Rmax_l (Rabs a) (Rabs b)).
  assert (Hmax_b := Rmax_r (Rabs a) (Rabs b)).
  unfold isclose, abs_tol. destruct (Req_dec_T a b) as [->|Hne].
  - split; [intros _|reflexivity].
    rewrite Rminus_diag, Rabs_R0. apply Rmult_le_pos; lra.
  - rewrite (Rabs_minus_sym b a), !Rabs_mult, (Rabs_pos_eq rel_tol) by lra.
    destruct (Rle_dec (Rabs (a - b)) (rel_tol * Rabs b)) as [H1|H1].
    { split; [intros _|reflexivity]. nra. }
    destruct (Rle_dec (Rabs (a - b)) (rel_tol * Rabs a)) as [H2|H2].
    { split; [intros _|reflexivity]. nra. }
    destruct (Rle_dec (Rabs (a - b)) 0) as [H3|H3].
    { split; [intros _|reflexivity]. nra. }
    split; [discriminate|]. intros H. exfalso.
    destruct (Rmax_case (Rabs a) (Rabs b) (fun m => m = Rabs a \/ m = Rabs b))
      as [Hm|Hm]; [now left | now right | |]; rewrite Hm in H; contradiction.
Qed.

Lemma math_log_pos (y : R) : (0 < y)%R -> math_log y = Ok (ln y).
Proof. intros Hy. unfold math_log. destruct (Rlt_dec 0 y); [reflexivity | contradiction]. Qed.


(** ** Concrete runs *)

Example submitted_ranges_101_4 :
  submitted_ranges 101 (101 / 4) 4 = [(1, 25); (26, 50); (51, 75); (76, 101)].
Proof. reflexivity. Qed.

(** More threads than indices: the chunks before the last are empty. *)
Example submitted_ranges_3_5 :
  submitted_ranges 3 (3 / 5) 5 = [(1, 0); (1, 0); (1, 0); (1, 0); (1, 3)].
Proof. reflexivity. Qed.

Example thread_args_101_2 :
  thread_args 101 (101 / 2) 2 = [(1, 50, 0); (51, 101, 1)].
Proof. reflexivity. Qed.

Example setitem_last : setitem [1; 2; 3] (-1) 9 = Ok [1; 2; 9].
Proof. reflexivity. Qed.

Example setitem_out_of_range : setitem [1; 2; 3] 3 9 = Raise IndexError.
Proof. reflexivity. Qed.

Example floordiv_negative : floordiv 101 (-2) = Ok (-51).
Proof. reflexivity. Qed.

Lemma series_term_0 (n : Z) : n <> 0 -> series_term 0 n = (1 / IZR n)%R.
Proof. intros _. unfold series_term. now rewrite Rmult_0_r, cos_0. Qed.

(** [calculate_series_sum_single_threaded(0.0, 1.0)]: the term 1 is added,
    the term 1/2 stops the loop: [(1.0, 2)]. *)
Example single_threaded_at_0_1 :
  calculate_series_sum_single_threaded 2 0 1 = Some (Ok (1%R, 2)).
Proof.
  unfold calculate_series_sum_single_threaded. simpl single_loop.
  rewrite !term_ok, !series_term_0 by lia.
  assert (H1 : abs_lt (1 / 1) 1 = false).
  { apply abs_lt_false. rewrite Rabs_pos_eq; lra. }
  assert (H2 : abs_lt (1 / 2) 1 = true).
  { apply abs_lt_true. rewrite Rabs_pos_eq; lra. }
  change (1 + 1) with 2. rewrite H1, H2. do 3 f_equal. lra.
Qed.

(** * The claims *)

(** C10.  For every [x], every [epsilon] and every pair of integers with
    [start_n > end_n], [calculate_partial_sum] returns 0.0 and stores 0.0 at
    [results_list[idx]] without evaluating any series term: the loop is left
    at its first guard check, with [n] still [start_n] (also for
    [start_n = 0], whose term cannot be evaluated). *)
Theorem partial_sum_empty_range (x : R) (start_n end_n : Z) (epsilon : R)
    (results_list : list R) (idx : Z) :
  end_n < start_n ->
  partial_loop x end_n epsilon 0%R start_n = Ok (0%R, start_n, GuardFailed)
  /\ calculate_partial_sum x start_n end_n epsilon results_list idx
     = (do results_list' <- setitem results_list idx 0%R; Ok (0%R, results_list'))
  /\ (0 <= idx < Z.of_nat (length results_list) ->
      calculate_partial_sum x start_n end_n epsilon results_list idx
      = Ok (0%R, <[Z.to_nat idx := 0%R]> results_list)).
Proof.
  intros Hempty.
  assert (Hrun := partial_loop_empty x end_n epsilon 0%R start_n Hempty).
  split; [exact Hrun|].
  assert (Hcall : calculate_partial_sum x start_n end_n epsilon results_list idx
                  = (do results_list' <- setitem results_list idx 0%R;
                     Ok (0%R, results_list')))
    by (unfold calculate_partial_sum; now rewrite Hrun).
  split; [exact Hcall|].
  intros Hidx. rewrite Hcall, setitem_in_range by assumption. reflexivity.
Qed.

Lemma partial_sum_empty_range_witness :
  partial_loop PI (-1) 1 0%R 0 = Ok (0%R, 0, GuardFailed)
  /\ calculate_partial_sum PI 0 (-1) 1 [5%R; 7%R] 1
     = (do results_list' <- setitem [5%R; 7%R] 1 0%R; Ok (0%R, results_list'))
  /\ (0 <= 1 < Z.of_nat (length [5%R; 7%R]) ->
      calculate_partial_sum PI 0 (-1) 1 [5%R; 7%R] 1
      = Ok (0%R, <[Z.to_nat 1 := 0%R]> [5%R; 7%R])).
Proof. apply (partial_sum_empty_range PI 0 (-1) 1 [5%R; 7%R] 1). lia. Defined.







(** C8.  For every [x], [calculate_analytical_sum(x)] returns exactly
    [-ln 2] when [x] is equal to pi under the relative-tolerance comparison
    [|x - pi| <= 1e-9 * max(|x|, |pi|)], and otherwise returns
    [get_control_value(x)]; in particular [calculate_analytical_sum(pi)] is
    [-ln 2]. *)
Theorem analytical_sum_cases (x : R) :
  ((Rabs (x - PI) <= 1e-9 * Rmax (Rabs x) (Rabs PI))%R ->
   calculate_analytical_sum x = Ok (- ln 2)%R)
  /\ (~ (Rabs (x - PI) <= 1e-9 * Rmax (Rabs x) (Rabs PI))%R ->
      calculate_analytical_sum x = get_control_value x)
  /\ calculate_analytical_sum PI = Ok (- ln 2)%R.
Proof.
  assert (Hclose : forall y, isclose y PI = true ->
                     calculate_analytical_sum y = Ok (- ln 2)%R).
  { intros y Hy. unfold calculate_analytical_sum. rewrite Hy.
    rewrite math_log_pos by lra. reflexivity. }
  split; [|split].
  - intros Hx. apply Hclose. now apply isclose_spec.
  - intros Hx. unfold calculate_analytical_sum.
    destruct (isclose x PI) eqn:Hc; [|reflexivity].
    apply isclose_spec in Hc. contradiction.
  - apply Hclose. unfold isclose.
    destruct (Req_dec_T PI PI); [reflexivity | congruence].
Qed.

Lemma analytical_sum_cases_witness :
  calculate_analytical_sum PI = Ok (- ln 2)%R
  /\ calculate_analytical_sum 0 = get_control_value 0.
Proof.
  split.
  - apply (proj1 (analytical_sum_cases PI)).
    rewrite Rminus_diag, Rabs_R0.
    apply Rmult_le_pos; [lra|]. apply Rle_trans with (Rabs PI); [apply Rabs_pos | apply Rmax_r].
  - apply (proj1 (proj2 (analytical_sum_cases 0))).
    assert (Hpi := PI_RGT_0).
    rewrite Rabs_R0, Rmax_right by apply Rabs_pos.
    unfold Rminus. rewrite Rplus_0_l, Rabs_Ropp, Rabs_pos_eq by lra. nra.
Defined.

(** * Further properties of the module *)

(** ** Edge and error behaviour of the single-threaded loop *)



(** ** Error behaviour of the parallel functions *)

(** X8.  [epsilon = 0]: both parallel functions raise [ZeroDivisionError] (from
    [1 / epsilon]) for every [x] and every [num_threads]. *)
Theorem zero_epsilon_raises (x : R) (num_threads : Z) (sched : list nat) :
  calculate_series_sum_multi_threaded sched x 0 num_threads = Raise ZeroDivisionError
  /\ calculate_with_threadpool x 0 num_threads = Raise ZeroDivisionError.
Proof.
  assert (Hbound : series_bound 0 = Raise ZeroDivisionError).
  { unfold series_bound, float_div. destruct (Req_dec_T 0 0); [reflexivity | congruence]. }
  unfold calculate_series_sum_multi_threaded, calculate_with_threadpool.
  now rewrite Hbound.
Qed.

(** ** Edge and error behaviour of the summation units *)

(** X9.  The pool's [worker] and the thread target compute the same thing on
    every input: [calculate_partial_sum] is [worker] followed by the store,
    and raises whatever [worker] raises. *)
Theorem partial_sum_is_worker (x : R) (start_n end_n : Z) (epsilon : R)
    (results_list : list R) (idx : Z) :
  calculate_partial_sum x start_n end_n epsilon results_list idx
  = (do v <- worker x epsilon start_n end_n;
     do results_list' <- setitem results_list idx v;
     Ok (v, results_list')).
Proof.
  unfold calculate_partial_sum, worker. rewrite worker_loop_partial_loop.
  destruct (partial_loop x end_n epsilon 0 start_n); reflexivity.
Qed.

(** ** Shape of the partition *)

(** X14.  Every chunk but the last holds exactly [chunk_size] indices; the last
    one holds [chunk_size] plus the remainder [max_n mod num_threads], so it
    is the longest, by less than [num_threads]. *)
Theorem chunk_lengths (epsilon : R) (num_threads : Z) (i : nat) (r : Z * Z) :
  (0 < epsilon)%R ->
  1 <= num_threads ->
  submitted_ranges (Zceil (1 / epsilon) + 100)
    ((Zceil (1 / epsilon) + 100) / num_threads) num_threads !! i = Some r ->
  snd r - fst r + 1
  = (if Z.of_nat i <? num_threads - 1
     then (Zceil (1 / epsilon) + 100) / num_threads
     else (Zceil (1 / epsilon) + 100) / num_threads
          + (Zceil (1 / epsilon) + 100) mod num_threads)
  /\ 0 <= (Zceil (1 / epsilon) + 100) mod num_threads < num_threads.
Proof.
  intros He Hnt Hr. apply lookup_submitted_ranges in Hr as [Hi ->]. simpl.
  assert (Hmod := Z.mod_pos_bound (Zceil (1 / epsilon) + 100) num_threads ltac:(lia)).
  split; [|exact Hmod].
  assert (Heq := Z.div_mod (Zceil (1 / epsilon) + 100) num_threads ltac:(lia)).
  revert Heq.
  generalize ((Zceil (1 / epsilon) + 100) / num_threads)
             ((Zceil (1 / epsilon) + 100) mod num_threads).
  intros q m Heq.
  destruct (Z.ltb_spec (Z.of_nat i) (num_threads - 1)) as [Hlt|Hge]; [lia|].
  replace (Z.of_nat i) with (num_threads - 1) by lia. lia.
Qed.

Lemma chunk_lengths_witness :
  snd (76, 101) - fst (76, 101) + 1
  = (if Z.of_nat 3 <? 4 - 1
     then (Zceil (1 / 1) + 100) / 4
     else (Zceil (1 / 1) + 100) / 4 + (Zceil (1 / 1) + 100) mod 4)
  /\ 0 <= (Zceil (1 / 1) + 100) mod 4 < 4.
Proof.
  apply (chunk_lengths 1 4 3 (76, 101)); [lra | lia |].
  assert (Hceil : Zceil (1 / 1) = 1) by (apply (Zceil_eq 1); simpl; lra).
  rewrite Hceil. reflexivity.
Defined.

(** X15.  More threads than indices: [chunk_size] is 0, every chunk but the last
    is the empty range [(1, 0)], and the last thread gets the whole range
    [(1, max_n)]. *)
Theorem more_threads_than_indices (epsilon : R) (num_threads : Z) (i : nat) (r : Z * Z) :
  (0 < epsilon)%R ->
  Zceil (1 / epsilon) + 100 < num_threads ->
  submitted_ranges (Zceil (1 / epsilon) + 100)
    ((Zceil (1 / epsilon) + 100) / num_threads) num_threads !! i = Some r ->
  r = if Z.of_nat i <? num_threads - 1 then (1, 0)
      else (1, Zceil (1 / epsilon) + 100).
Proof.
  intros He Hnt Hr. assert (Hmax := series_bound_pos epsilon He).
  apply lookup_submitted_ranges in Hr as [Hi ->].
  rewrite Z.div_small by lia.
  destruct (Z.ltb_spec (Z.of_nat i) (num_threads - 1)); f_equal; lia.
Qed.

Lemma more_threads_than_indices_witness :
  (1, 0) = if Z.of_nat 0 <? 200 - 1 then (1, 0) else (1, Zceil (1 / 1) + 100).
Proof.
  assert (Hceil : Zceil (1 / 1) = 1) by (apply (Zceil_eq 1); simpl; lra).
  apply (more_threads_than_indices 1 200 0 (1, 0)); [lra | lia |].
  rewrite Hceil. reflexivity.
Defined.

(** ** The control value and the analytical sum *)





(** * The functions on binary64 floats *)

Section B64Facts.

Variable P : B64.platform.

Lemma b64_partial_loop_step (x : float) (end_n : Z) (epsilon s : float) (n : Z) :
  B64.partial_loop P x end_n epsilon s n =
  if Z_le_dec n end_n then
    match B64.term P x n with
    | Raise e => Raise e
    | Ok t =>
        if B64.abs_lt t epsilon then Ok (s, n, Broke)
        else B64.partial_loop P x end_n epsilon (PrimFloat.add s t) (n + 1)
    end
  else Ok (s, n, GuardFailed).
Proof using Type.
  rewrite B64.partial_loop_equation_1.
  destruct (Z_le_dec n end_n); simpl; [|reflexivity].
  destruct (B64.term P x n); simpl; [|reflexivity].
  destruct (B64.abs_lt a epsilon); reflexivity.
Qed.

Lemma b64_worker_loop_step (x epsilon : float) (end_n : Z) (s : float) (n : Z) :
  B64.worker_loop P x epsilon end_n s n =
  if Z_le_dec n end_n then
    match B64.term P x n with
    | Raise e => Raise e
    | Ok t =>
        if B64.abs_lt t epsilon then Ok (s, n, Broke)
        else B64.worker_loop P x epsilon end_n (PrimFloat.add s t) (n + 1)
    end
  else Ok (s, n, GuardFailed).
Proof using Type.
  rewrite B64.worker_loop_equation_1.
  destruct (Z_le_dec n end_n); simpl; [|reflexivity].
  destruct (B64.term P x n); simpl; [|reflexivity].
  destruct (B64.abs_lt a epsilon); reflexivity.
Qed.

Lemma b64_worker_loop_partial_loop (x epsilon : float) (end_n : Z) (s : float) (n : Z) :
  B64.worker_loop P x epsilon end_n s n = B64.partial_loop P x end_n epsilon s n.
Proof using Type.
  remember (Z.to_nat (end_n + 1 - n)) as k eqn:Hk.
  revert s n Hk. induction k as [k IH] using lt_wf_ind. intros s n Hk.
  rewrite b64_worker_loop_step, b64_partial_loop_step.
  destruct (Z_le_dec n end_n) as [Hle|]; [|reflexivity].
  destruct (B64.term P x n) as [t|]; [|reflexivity].
  destruct (B64.abs_lt t epsilon); [reflexivity|].
  apply (IH (Z.to_nat (end_n + 1 - (n + 1)))); [lia | reflexivity].
Qed.

(** Each index is added, or stops the loop by a small term or an
    exception. *)
Lemma b64_index_cases (x epsilon : float) (k : Z) :
  B64.added P x epsilon k \/ B64.small P x epsilon k
  \/ exists e, B64.term P x k = Raise e.
Proof using Type.
  unfold B64.added, B64.small. destruct (B64.term P x k) as [t|e].
  - destruct (B64.abs_lt t epsilon) eqn:Hs; [right; left | left]; eauto.
  - right. right. eauto.
Qed.

Lemma b64_added_not_small (x epsilon : float) (k : Z) :
  B64.added P x epsilon k -> ~ B64.small P x epsilon k.
Proof using Type.
  intros (t & Ht & Hf) (t' & Ht' & Hs). congruence.
Qed.

(** What a bounded loop does, on every input: it adds the terms of [c]
    consecutive indices and ends at [n + c], the first index that is past
    [end_n], or has a small term, or a term that raises. *)
Lemma b64_partial_loop_spec (x : float) (end_n : Z) (epsilon : float) :
  forall (s : float) (n : Z),
  exists (c : nat) (s' : float),
    (forall k, n <= k < n + Z.of_nat c -> k <= end_n /\ B64.added P x epsilon k)
    /\ B64.sum_terms P x s n c = Ok s'
    /\ ((end_n < n + Z.of_nat c
         /\ B64.partial_loop P x end_n epsilon s n
            = Ok (s', n + Z.of_nat c, GuardFailed))
        \/ (n + Z.of_nat c <= end_n
            /\ B64.small P x epsilon (n + Z.of_nat c)
            /\ B64.partial_loop P x end_n epsilon s n
               = Ok (s', n + Z.of_nat c, Broke))
        \/ (n + Z.of_nat c <= end_n
            /\ exists e, B64.term P x (n + Z.of_nat c) = Raise e
                         /\ B64.partial_loop P x end_n epsilon s n = Raise e)).
Proof using Type.
  intros s n. remember (Z.to_nat (end_n + 1 - n)) as k eqn:Hk.
  revert s n Hk. induction k as [k IH] using lt_wf_ind. intros s n Hk.
  rewrite b64_partial_loop_step.
  destruct (Z_le_dec n end_n) as [Hle|Hgt].
  - destruct (B64.term P x n) as [t|e] eqn:Ht.
    + destruct (B64.abs_lt t epsilon) eqn:Hs.
      * exists 0%nat, s. rewrite Z.add_0_r.
        split; [intros j Hj; lia|]. split; [reflexivity|].
        right. left. split; [assumption|]. split; [|reflexivity].
        exists t. now split.
      * destruct (IH (Z.to_nat (end_n + 1 - (n + 1))) ltac:(lia)
                    (PrimFloat.add s t) (n + 1) eq_refl)
          as (c & s' & Hadded & Hsum & Hend).
        exists (S c), s'.
        replace (n + Z.of_nat (S c)) with (n + 1 + Z.of_nat c) by lia.
        split; [|split].
        -- intros j Hj. destruct (Z.eq_dec j n) as [->|Hne].
           ++ split; [assumption|]. exists t. now split.
           ++ apply Hadded. lia.
        -- simpl. rewrite Ht. exact Hsum.
        -- exact Hend.
    + exists 0%nat, s. rewrite Z.add_0_r.
      split; [intros j Hj; lia|]. split; [reflexivity|].
      right. right. split; [assumption|]. exists e. now split.
  - exists 0%nat, s. rewrite Z.add_0_r.
    split; [intros j Hj; lia|]. split; [reflexivity|].
    left. split; [lia | reflexivity].
Qed.

(** The unbounded loop runs through added indices. *)
Lemma b64_single_loop_added (x epsilon : float) (c : nat) :
  forall (s : float) (n : Z) (fuel : nat),
    (forall k, n <= k < n + Z.of_nat c -> B64.added P x epsilon k) ->
    exists s' : float,
      B64.sum_terms P x s n c = Ok s'
      /\ B64.single_loop P (c + fuel) x epsilon s n
         = B64.single_loop P fuel x epsilon s' (n + Z.of_nat c).
Proof using Type.
  induction c as [|c IH]; intros s n fuel Hadded.
  - exists s. split; [reflexivity|]. now rewrite Z.add_0_r.
  - destruct (Hadded n ltac:(lia)) as (t & Ht & Hf).
    destruct (IH (PrimFloat.add s t) (n + 1) fuel) as (s' & Hsum & Hrun).
    { intros k Hk. apply Hadded. lia. }
    exists s'. split.
    + simpl. rewrite Ht. exact Hsum.
    + simpl. rewrite Ht, Hf, Hrun. f_equal. lia.
Qed.

(** Among the indices from [n] on, an index that is not added gives a first
    one. *)
Lemma b64_first_stop (x epsilon : float) (d : nat) :
  forall n : Z,
    ~ B64.added P x epsilon (n + Z.of_nat d) ->
    exists c : nat,
      (c <= d)%nat /\ ~ B64.added P x epsilon (n + Z.of_nat c)
      /\ forall k, n <= k < n + Z.of_nat c -> B64.added P x epsilon k.
Proof using Type.
  induction d as [|d IH]; intros n Hd.
  - exists 0%nat. split; [lia|]. split; [assumption|]. intros k Hk. lia.
  - destruct (b64_index_cases x epsilon n) as [Hadd|Hstop].
    + destruct (IH (n + 1)) as (c & Hc & Hstop & Hbefore).
      { replace (n + 1 + Z.of_nat d) with (n + Z.of_nat (S d)) by lia. exact Hd. }
      exists (S c). split; [lia|].
      replace (n + Z.of_nat (S c)) with (n + 1 + Z.of_nat c) by lia.
      split; [exact Hstop|].
      intros k Hk. destruct (Z.eq_dec k n) as [->|Hne]; [exact Hadd|].
      apply Hbefore. lia.
    + exists 0%nat. split; [lia|]. rewrite Z.add_0_r. split.
      * intros Hadd. destruct Hstop as [Hs|(e & He)].
        -- now apply (b64_added_not_small x epsilon n).
        -- destruct Hadd as (t & Ht & _). congruence.
      * intros k Hk. lia.
Qed.

(** An [int] of 1024 bits or more has no float: the term of index [2^1024]
    raises [OverflowError]. *)
Lemma b64_term_overflow (x : float) :
  B64.term P x (2 ^ 1024) = Raise OverflowError.
Proof using Type.
  unfold B64.term, B64.int_mul_float.
  assert (H : B64.float_of_int (2 ^ 1024) = Raise OverflowError)
    by (vm_compute; reflexivity).
  now rewrite H.
Qed.

End B64Facts.

(** ** Float facts *)

(** Nothing is below an [epsilon] that is not greater than 0 (or is NaN). *)
Lemma b64_abs_not_below (t epsilon : float) :
  PrimFloat.ltb PrimFloat.zero epsilon = false -> B64.abs_lt t epsilon = false.
Proof.
  unfold B64.abs_lt. rewrite !FloatAxioms.ltb_spec, FloatAxioms.abs_spec.
  change (Prim2SF PrimFloat.zero) with (S754_zero false).
  destruct (Prim2SF t) as [s|s| |s m e];
    destruct (Prim2SF epsilon) as [s'|s'| |s' m' e'];
    try destruct s; try destruct s'; cbn; try reflexivity; try discriminate.
Qed.

(** [0 * x] is a zero or NaN, never an infinity. *)
Lemma b64_zero_mul_not_infinite (x : float) :
  PrimFloat.is_infinity (PrimFloat.mul PrimFloat.zero x) = false.
Proof.
  unfold PrimFloat.is_infinity. rewrite FloatAxioms.eqb_spec, FloatAxioms.abs_spec, FloatAxioms.mul_spec.
  change (Prim2SF PrimFloat.zero) with (S754_zero false).
  change (Prim2SF infinity) with (S754_infinity false).
  destruct (Prim2SF x) as [s|s| |s m e]; try destruct s; cbn; reflexivity.
Qed.

Section B64Units.

Variable P : B64.platform.

(** The term of index 0 raises [ZeroDivisionError], whatever [x]. *)
Lemma b64_term_zero (x : float) : B64.term P x 0 = Raise ZeroDivisionError.
Proof using Type.
  unfold B64.term, B64.int_mul_float, B64.math_cos, B64.float_div_int.
  change (B64.float_of_int 0) with (Ok PrimFloat.zero). simpl bind.
  now rewrite b64_zero_mul_not_infinite.
Qed.

Lemma b64_partial_sum_worker (x : float) (start_n end_n : Z) (epsilon : float)
    (results_list : list float) (idx : Z) :
  B64.calculate_partial_sum P x start_n end_n epsilon results_list idx
  = (do v <- B64.worker P x epsilon start_n end_n;
     do results_list' <- setitem results_list idx v;
     Ok (v, results_list')).
Proof using Type.
  unfold B64.calculate_partial_sum, B64.worker.
  rewrite b64_worker_loop_partial_loop.
  destruct (B64.partial_loop P x end_n epsilon PrimFloat.zero start_n); reflexivity.
Qed.

(** A bounded loop that contains the index where the unbounded loop breaks
    performs the same additions in the same order. *)
Lemma b64_partial_loop_single_loop (x epsilon : float) (end_n : Z) (fuel : nat) :
  forall (s : float) (n : Z) (s' : float) (m : Z),
    B64.single_loop P fuel x epsilon s n = Some (Ok (s', m)) ->
    m <= end_n ->
    B64.partial_loop P x end_n epsilon s n = Ok (s', m, Broke).
Proof using Type.
  induction fuel as [|fuel IH]; intros s n s' m Hrun Hm; [discriminate|].
  simpl in Hrun.
  assert (Hnm : n <= m).
  { clear IH Hm. revert s n Hrun. induction fuel as [|fuel IHf]; intros s n Hrun.
    - destruct (B64.term P x n) as [t|]; [|discriminate].
      destruct (B64.abs_lt t epsilon); [|discriminate].
      injection Hrun as _ <-. lia.
    - destruct (B64.term P x n) as [t|]; [|discriminate].
      destruct (B64.abs_lt t epsilon); [injection Hrun as _ <-; lia|].
      simpl in Hrun. specialize (IHf _ _ Hrun). lia. }
  rewrite b64_partial_loop_step.
  destruct (Z_le_dec n end_n) as [_|Hgt]; [|lia].
  destruct (B64.term P x n) as [t|]; [|discriminate].
  destruct (B64.abs_lt t epsilon).
  - injection Hrun as <- <-. reflexivity.
  - now apply IH.
Qed.




Variables x epsilon : float.
Variables max_n chunk_size num_threads : Z.

Local Abbreviation ranges := (submitted_ranges max_n chunk_size num_threads).
Local Abbreviation threads := (thread_args max_n chunk_size num_threads).




End B64Units.




(** ** Runs at [x = 1e308] *)

Lemma b64_single_loop_step (P : B64.platform) (fuel : nat) (x epsilon s : float) (n : Z) :
  B64.single_loop P (S fuel) x epsilon s n
  = match B64.term P x n with
    | Raise e => Some (Raise e)
    | Ok t =>
        if B64.abs_lt t epsilon then Some (Ok (s, n))
        else B64.single_loop P fuel x epsilon (PrimFloat.add s t) (n + 1)
    end.
Proof. reflexivity. Qed.

(** The first term at [x = 1e308] is evaluated: [1 * x] is finite. *)
Lemma b64_term_1e308_first (P : B64.platform) :
  B64.term P B64.f_1e308 1
  = Ok (PrimFloat.div (B64.libm_cos P B64.f_1e308) PrimFloat.one).
Proof. reflexivity. Qed.

(** [2 * 1e308] and [101 * 1e308] are infinite: [math.cos] raises. *)
Lemma b64_term_1e308_second (P : B64.platform) :
  B64.term P B64.f_1e308 2 = Raise ValueError.
Proof. reflexivity. Qed.


(** ** The unbounded loop on floats *)

(** From any index [n <= 2^1024] the loop runs through added indices up to a
    first index [n + c <= 2^1024] that stops it: there it returns when the
    term is small and raises when the term cannot be evaluated. *)
Lemma b64_single_loop_outcome (P : B64.platform) (x epsilon s : float) (n : Z) :
  1 <= n <= 2 ^ 1024 ->
  exists (c : nat) (s' : float),
    (forall k, n <= k < n + Z.of_nat c -> B64.added P x epsilon k)
    /\ B64.sum_terms P x s n c = Ok s'
    /\ n + Z.of_nat c <= 2 ^ 1024
    /\ ((B64.small P x epsilon (n + Z.of_nat c)
         /\ forall fuel : nat,
             (c < fuel)%nat ->
             B64.single_loop P fuel x epsilon s n = Some (Ok (s', n + Z.of_nat c)))
        \/ (exists e,
              B64.term P x (n + Z.of_nat c) = Raise e
              /\ forall fuel : nat,
                  (c < fuel)%nat ->
                  B64.single_loop P fuel x epsilon s n = Some (Raise e))).
Proof.
  assert (Hover := b64_term_overflow P x). revert Hover.
  generalize (2 ^ 1024). intros N Hover Hn.
  destruct (b64_first_stop P x epsilon (Z.to_nat (N - n)) n) as (c & Hc & Hstop & Hadded).
  { replace (n + Z.of_nat (Z.to_nat (N - n))) with N by lia.
    intros (t & Ht & _). congruence. }
  destruct (b64_single_loop_added P x epsilon c s n 1 Hadded) as (s' & Hsum & _).
  exists c, s'. split; [exact Hadded|]. split; [exact Hsum|]. split; [lia|].
  assert (Hrun : forall fuel : nat,
             (c < fuel)%nat ->
             B64.single_loop P fuel x epsilon s n
             = match B64.term P x (n + Z.of_nat c) with
               | Raise e => Some (Raise e)
               | Ok t =>
                   if B64.abs_lt t epsilon then Some (Ok (s', n + Z.of_nat c))
                   else B64.single_loop P (fuel - c - 1) x epsilon
                          (PrimFloat.add s' t) (n + Z.of_nat c + 1)
               end).
  { intros fuel Hfuel.
    destruct (b64_single_loop_added P x epsilon c s n (S (fuel - c - 1)) Hadded)
      as (s'' & Hsum' & Hgo).
    assert (s'' = s') by congruence. subst s''.
    replace (c + S (fuel - c - 1))%nat with fuel in Hgo by lia.
    rewrite Hgo. reflexivity. }
  destruct (b64_index_cases P x epsilon (n + Z.of_nat c)) as [Hadd|[Hsmall|(e & He)]].
  - contradiction.
  - left. split; [exact Hsmall|]. intros fuel Hfuel. rewrite (Hrun fuel Hfuel).
    destruct Hsmall as (t & Ht & Hs). now rewrite Ht, Hs.
  - right. exists e. split; [exact He|]. intros fuel Hfuel.
    rewrite (Hrun fuel Hfuel). now rewrite He.
Qed.

(** ** The claims on floats *)

(** C1, as stated, fails: at [x = 1e308] the product [2 * x] is infinite and
    [math.cos] raises.  On every platform whose first term [cos(1e308)/1] is
    not below [epsilon = 1e-7] the call raises [ValueError] in its second
    iteration; the C library's [cos(1e308) = -0.89...] is such a value. *)
Lemma b64_single_threaded_overflow_raises :
  PrimFloat.ltb PrimFloat.zero B64.f_1e_7 = true
  /\ (forall P : B64.platform,
      B64.abs_lt (PrimFloat.div (B64.libm_cos P B64.f_1e308) PrimFloat.one)
        B64.f_1e_7 = false ->
      forall fuel : nat,
        (2 <= fuel)%nat ->
        B64.calculate_series_sum_single_threaded P fuel B64.f_1e308 B64.f_1e_7
        = Some (Raise ValueError))
  /\ B64.abs_lt (PrimFloat.div B64.cos_1e308 PrimFloat.one) B64.f_1e_7 = false.
Proof.
  split; [reflexivity|]. split; [|reflexivity]. intros P Hfirst fuel Hfuel.
  destruct fuel as [|[|fuel]]; try lia.
  unfold B64.calculate_series_sum_single_threaded.
  rewrite b64_single_loop_step, b64_term_1e308_first, Hfirst.
  rewrite b64_single_loop_step. change (1 + 1) with 2.
  now rewrite b64_term_1e308_second.
Qed.

(** C1, amended.  For every [x] and [epsilon],
    [calculate_series_sum_single_threaded] ends at the first index
    [n >= 1] whose term [cos(n x)/n], computed in floating point, is below
    [epsilon] or cannot be evaluated.  If the term is below [epsilon] the call
    returns [(sum, n)], where [sum] is the floating-point sum, added left to
    right, of the terms of [1 .. n - 1]: [terms_counted = n > 0] and the
    stopping term is not added.  If the term cannot be evaluated
    ([ValueError] when [n * x] is infinite, [OverflowError] when [n] has no
    float) the call raises that exception. *)
Theorem b64_single_threaded_result (P : B64.platform) (x epsilon : float) :
  exists (n : Z) (sum : float),
    0 < n
    /\ (forall k, 1 <= k < n -> B64.added P x epsilon k)
    /\ B64.sum_terms P x PrimFloat.zero 1 (Z.to_nat (n - 1)) = Ok sum
    /\ ((B64.small P x epsilon n
         /\ forall fuel : nat,
             (Z.to_nat n <= fuel)%nat ->
             B64.calculate_series_sum_single_threaded P fuel x epsilon
             = Some (Ok (sum, n)))
        \/ (exists e,
              B64.term P x n = Raise e
              /\ forall fuel : nat,
                  (Z.to_nat n <= fuel)%nat ->
                  B64.calculate_series_sum_single_threaded P fuel x epsilon
                  = Some (Raise e))).
Proof.
  assert (Hpow : 1 <= 2 ^ 1024) by (apply Z.lt_pred_le, Z.pow_pos_nonneg; lia).
  destruct (b64_single_loop_outcome P x epsilon PrimFloat.zero 1 ltac:(lia))
    as (c & s & Hadded & Hsum & _ & Hend).
  exists (1 + Z.of_nat c), s. split; [lia|]. split; [exact Hadded|].
  replace (Z.to_nat (1 + Z.of_nat c - 1)) with c by lia.
  split; [exact Hsum|].
  unfold B64.calculate_series_sum_single_threaded.
  destruct Hend as [[Hsmall Hrun]|(e & He & Hrun)].
  - left. split; [exact Hsmall|]. intros fuel Hfuel. apply Hrun. lia.
  - right. exists e. split; [exact He|]. intros fuel Hfuel. apply Hrun. lia.
Qed.




(** ** The bounded loop on floats *)

Lemma b64_setitem_out_of_range {A : Type} (l : list A) (idx : Z) (v : A) :
  idx < - Z.of_nat (length l) \/ Z.of_nat (length l) <= idx ->
  setitem l idx v = Raise IndexError.
Proof.
  intros Hidx. unfold setitem.
  destruct (Z.leb_spec 0 idx); destruct (Z.ltb_spec idx (Z.of_nat (length l)));
    destruct (Z.leb_spec (- Z.of_nat (length l)) idx); destruct (Z.ltb_spec idx 0);
    simpl; try reflexivity; lia.
Qed.

Lemma b64_setitem_negative {A : Type} (l : list A) (idx : Z) (v : A) :
  - Z.of_nat (length l) <= idx < 0 ->
  setitem l idx v = Ok (<[Z.to_nat (Z.of_nat (length l) + idx) := v]> l).
Proof.
  intros Hidx. unfold setitem.
  destruct (Z.leb_spec 0 idx); destruct (Z.ltb_spec idx (Z.of_nat (length l)));
    destruct (Z.leb_spec (- Z.of_nat (length l)) idx); destruct (Z.ltb_spec idx 0);
    simpl; try reflexivity; lia.
Qed.

(** What a call of [calculate_partial_sum] does, on every input. *)
Lemma b64_partial_sum_outcome (P : B64.platform) (x : float) (start_n end_n : Z)
    (epsilon : float) (results_list : list float) (idx : Z) :
  exists (c : nat) (s : float),
    (forall k, start_n <= k < start_n + Z.of_nat c ->
       k <= end_n /\ B64.added P x epsilon k)
    /\ B64.sum_terms P x PrimFloat.zero start_n c = Ok s
    /\ (((end_n < start_n + Z.of_nat c
          \/ (start_n + Z.of_nat c <= end_n
              /\ B64.small P x epsilon (start_n + Z.of_nat c)))
         /\ B64.worker P x epsilon start_n end_n = Ok s
         /\ B64.calculate_partial_sum P x start_n end_n epsilon results_list idx
            = (do results_list' <- setitem results_list idx s;
               Ok (s, results_list')))
        \/ (start_n + Z.of_nat c <= end_n
            /\ exists e,
                B64.term P x (start_n + Z.of_nat c) = Raise e
                /\ B64.worker P x epsilon start_n end_n = Raise e
                /\ B64.calculate_partial_sum P x start_n end_n epsilon
                     results_list idx = Raise e)).
Proof.
  destruct (b64_partial_loop_spec P x end_n epsilon PrimFloat.zero start_n)
    as (c & s & Hadded & Hsum & Hend).
  exists c, s. split; [exact Hadded|]. split; [exact Hsum|].
  rewrite b64_partial_sum_worker. unfold B64.worker.
  rewrite b64_worker_loop_partial_loop.
  destruct Hend as [[Hgt Hrun]|[(Hle & Hsmall & Hrun)|(Hle & e & He & Hrun)]];
    rewrite Hrun.
  - left. split; [now left|]. split; reflexivity.
  - left. split; [right; now split|]. split; reflexivity.
  - right. split; [exact Hle|]. exists e. split; [exact He|]. split; reflexivity.
Qed.

(** C2, as stated, fails: [calculate_partial_sum(1e308, 2, 3, 0.01, [0.0], 0)]
    has [start_n >= 1] and [epsilon > 0], yet [2 * 1e308] is infinite and the
    call raises [ValueError], on every platform. *)
Lemma b64_partial_sum_overflow_raises :
  1 <= 2
  /\ PrimFloat.ltb PrimFloat.zero B64.f_0_01 = true
  /\ forall P : B64.platform,
      B64.calculate_partial_sum P B64.f_1e308 2 3 B64.f_0_01 [PrimFloat.zero] 0
      = Raise ValueError.
Proof.
  split; [lia|]. split; [reflexivity|]. intros P.
  unfold B64.calculate_partial_sum. rewrite b64_partial_loop_step.
  destruct (Z_le_dec 2 3) as [_|Hn]; [|lia].
  now rewrite b64_term_1e308_second.
Qed.

(** C2, amended.  For every [x], [start_n], [end_n] and [epsilon],
    [calculate_partial_sum] adds, left to right in floating point, the terms
    [cos(n x)/n] for [n] running from [start_n] upward and stops at the
    first [n] with [n > end_n], or whose term is below [epsilon] (not
    added), or whose term cannot be evaluated.  In the first two cases it
    stores and returns the sum, which is 0.0 when already the term of
    [start_n] is below [epsilon]; in the third it raises that term's
    exception ([ValueError] when [n * x] is infinite, [ZeroDivisionError] at
    [n = 0], [OverflowError] when [n] has no float) and stores nothing.  No
    index past [end_n] is added. *)
Theorem b64_partial_sum_result (P : B64.platform) (x : float) (start_n end_n : Z)
    (epsilon : float) (results_list : list float) (idx : Z) :
  exists (c : nat) (s : float),
    (forall k, start_n <= k < start_n + Z.of_nat c ->
       k <= end_n /\ B64.added P x epsilon k)
    /\ B64.sum_terms P x PrimFloat.zero start_n c = Ok s
    /\ start_n + Z.of_nat c <= Z.max start_n (end_n + 1)
    /\ (((end_n < start_n + Z.of_nat c
          \/ B64.small P x epsilon (start_n + Z.of_nat c))
         /\ B64.calculate_partial_sum P x start_n end_n epsilon results_list idx
            = (do results_list' <- setitem results_list idx s;
               Ok (s, results_list')))
        \/ (start_n + Z.of_nat c <= end_n
            /\ exists e,
                B64.term P x (start_n + Z.of_nat c) = Raise e
                /\ B64.calculate_partial_sum P x start_n end_n epsilon
                     results_list idx = Raise e))
    /\ (B64.small P x epsilon start_n -> c = 0%nat /\ s = PrimFloat.zero).
Proof.
  destruct (b64_partial_sum_outcome P x start_n end_n epsilon results_list idx)
    as (c & s & Hadded & Hsum & Hend).
  exists c, s. split; [exact Hadded|]. split; [exact Hsum|].
  split; [|split].
  - destruct c as [|c]; [lia|].
    destruct (Hadded (start_n + Z.of_nat c)) as [Hle _]; lia.
  - destruct Hend as [(Hstop & _ & Hcall)|(Hle & e & He & _ & Hcall)].
    + left. split; [|exact Hcall]. destruct Hstop as [Hgt|[_ Hs]]; [now left | now right].
    + right. split; [exact Hle|]. exists e. now split.
  - intros Hsmall. destruct c as [|c].
    + simpl in Hsum. split; [reflexivity | congruence].
    + exfalso. destruct (Hadded start_n ltac:(lia)) as [_ Hadd].
      now apply (b64_added_not_small P x epsilon start_n).
Qed.



(** ** The parallel functions on floats *)







(** [1 / 1e-320] is infinite: [math.ceil] raises [OverflowError]. *)
Lemma b64_series_bound_overflow :
  B64.series_bound 0x0.00000000007e8p-1022%float = Raise OverflowError.
Proof. reflexivity. Qed.


(** ** Further properties on floats *)

(** A run at [x = 0.0]: the terms 1 and 1/2 are added, 1/3 is below
    [epsilon = 0.5]. *)
Example b64_worker_at_zero :
  B64.worker B64.zero_argument_platform PrimFloat.zero 0x1p-1%float 1 3
  = Ok 0x1.8p+0%float.
Proof.
  unfold B64.worker. rewrite b64_worker_loop_step.
  destruct (Z_le_dec 1 3) as [_|Hn]; [|lia].
  change (B64.term B64.zero_argument_platform PrimFloat.zero 1) with (Ok PrimFloat.one).
  change (B64.abs_lt PrimFloat.one 0x1p-1%float) with false. cbv iota.
  rewrite b64_worker_loop_step. change (1 + 1) with 2.
  destruct (Z_le_dec 2 3) as [_|Hn]; [|lia].
  change (B64.term B64.zero_argument_platform PrimFloat.zero 2) with (Ok 0x1p-1%float).
  change (B64.abs_lt 0x1p-1%float 0x1p-1%float) with false. cbv iota.
  rewrite b64_worker_loop_step. change (2 + 1) with 3.
  destruct (Z_le_dec 3 3) as [_|Hn]; [|lia].
  change (B64.term B64.zero_argument_platform PrimFloat.zero 3)
    with (Ok 0x1.5555555555555p-2%float).
  change (B64.abs_lt 0x1.5555555555555p-2%float 0x1p-1%float) with true. cbv iota.
  reflexivity.
Qed.

Example b64_single_threaded_at_zero :
  B64.calculate_series_sum_single_threaded B64.zero_argument_platform 3
    PrimFloat.zero 0x1p-1%float
  = Some (Ok (0x1.8p+0%float, 3)).
Proof. reflexivity. Qed.

(** X1.  A summation unit over [1 .. end_n] returns exactly (bit for bit)
    the sum of the single-threaded loop whenever that loop breaks at an
    index [n <= end_n]: both perform the same floating-point additions in
    the same order. *)
Theorem b64_bounded_loop_is_single_threaded (P : B64.platform) (x epsilon : float)
    (fuel : nat) (total : float) (n end_n : Z) :
  B64.calculate_series_sum_single_threaded P fuel x epsilon = Some (Ok (total, n)) ->
  n <= end_n ->
  B64.worker P x epsilon 1 end_n = Ok total
  /\ forall (results_list : list float) (idx : Z),
      B64.calculate_partial_sum P x 1 end_n epsilon results_list idx
      = (do results_list' <- setitem results_list idx total;
         Ok (total, results_list')).
Proof.
  intros Hrun Hn. unfold B64.calculate_series_sum_single_threaded in Hrun.
  assert (Hloop := b64_partial_loop_single_loop P x epsilon end_n fuel _ _ _ _ Hrun Hn).
  split.
  - unfold B64.worker. now rewrite b64_worker_loop_partial_loop, Hloop.
  - intros results_list idx. unfold B64.calculate_partial_sum. now rewrite Hloop.
Qed.

Lemma b64_bounded_loop_is_single_threaded_witness :
  B64.worker B64.zero_argument_platform PrimFloat.zero 0x1p-1%float 1 102
  = Ok 0x1.8p+0%float
  /\ forall (results_list : list float) (idx : Z),
      B64.calculate_partial_sum B64.zero_argument_platform PrimFloat.zero 1 102
        0x1p-1%float results_list idx
      = (do results_list' <- setitem results_list idx 0x1.8p+0%float;
         Ok (0x1.8p+0%float, results_list')).
Proof.
  apply (b64_bounded_loop_is_single_threaded B64.zero_argument_platform
           PrimFloat.zero 0x1p-1%float 3 0x1.8p+0%float 3 102);
    [exact b64_single_threaded_at_zero | lia].
Defined.

Lemma b64_single_loop_never_breaks (P : B64.platform) (x epsilon : float) (fuel : nat) :
  PrimFloat.ltb PrimFloat.zero epsilon = false ->
  forall (s : float) (n : Z) (r : result (float * Z)),
    B64.single_loop P fuel x epsilon s n = Some r -> exists e, r = Raise e.
Proof.
  intros He. induction fuel as [|fuel IH]; intros s n r Hrun; [discriminate|].
  rewrite b64_single_loop_step in Hrun.
  destruct (B64.term P x n) as [t|e].
  - rewrite (b64_abs_not_below t epsilon He) in Hrun. now apply IH in Hrun.
  - injection Hrun as <-. eauto.
Qed.

(** X5.  When [epsilon] is not greater than 0 (or is NaN) the test
    [abs(term) < epsilon] never holds: [calculate_series_sum_single_threaded]
    returns no pair; it runs until a term cannot be evaluated and raises,
    within [2^1024] iterations. *)
Theorem b64_nonpositive_epsilon_never_returns (P : B64.platform) (x epsilon : float) :
  PrimFloat.ltb PrimFloat.zero epsilon = false ->
  (forall (fuel : nat) (r : result (float * Z)),
      B64.calculate_series_sum_single_threaded P fuel x epsilon = Some r ->
      exists e, r = Raise e)
  /\ exists e,
      forall fuel : nat,
        (Z.to_nat (2 ^ 1024) <= fuel)%nat ->
        B64.calculate_series_sum_single_threaded P fuel x epsilon = Some (Raise e).
Proof.
  intros He. split.
  - intros fuel r. apply b64_single_loop_never_breaks. exact He.
  - assert (Hpow : 1 <= 2 ^ 1024) by (apply Z.lt_pred_le, Z.pow_pos_nonneg; lia).
    destruct (b64_single_loop_outcome P x epsilon PrimFloat.zero 1 ltac:(lia))
      as (c & s & _ & _ & Hbound & Hend).
    revert Hpow Hbound. generalize (2 ^ 1024). intros N Hpow Hbound.
    destruct Hend as [[(t & _ & Hs) _]|(e & _ & Hrun)].
    + rewrite (b64_abs_not_below t epsilon He) in Hs. discriminate.
    + exists e. intros fuel Hfuel. apply Hrun. lia.
Qed.

Lemma b64_nonpositive_epsilon_never_returns_witness :
  (forall (fuel : nat) (r : result (float * Z)),
      B64.calculate_series_sum_single_threaded B64.zero_argument_platform fuel
        PrimFloat.zero PrimFloat.zero = Some r ->
      exists e, r = Raise e)
  /\ exists e,
      forall fuel : nat,
        (Z.to_nat (2 ^ 1024) <= fuel)%nat ->
        B64.calculate_series_sum_single_threaded B64.zero_argument_platform fuel
          PrimFloat.zero PrimFloat.zero = Some (Raise e).
Proof.
  apply (b64_nonpositive_epsilon_never_returns B64.zero_argument_platform
           PrimFloat.zero PrimFloat.zero).
  reflexivity.
Defined.

(** X10.  When the summation loop completes and [idx] is outside
    [-len(results_list) <= idx < len(results_list)],
    [calculate_partial_sum] raises [IndexError]. *)
Theorem b64_partial_sum_index_error (P : B64.platform) (x : float)
    (start_n end_n : Z) (epsilon : float) (results_list : list float) (idx : Z)
    (v : float) :
  B64.worker P x epsilon start_n end_n = Ok v ->
  idx < - Z.of_nat (length results_list) \/ Z.of_nat (length results_list) <= idx ->
  B64.calculate_partial_sum P x start_n end_n epsilon results_list idx
  = Raise IndexError.
Proof.
  intros Hv Hidx. rewrite b64_partial_sum_worker, Hv. simpl bind.
  now rewrite b64_setitem_out_of_range.
Qed.

Lemma b64_partial_sum_index_error_witness :
  B64.calculate_partial_sum B64.zero_argument_platform PrimFloat.zero 1 3
    0x1p-1%float [PrimFloat.zero; PrimFloat.zero] 2
  = Raise IndexError.
Proof.
  apply (b64_partial_sum_index_error B64.zero_argument_platform PrimFloat.zero 1 3
           0x1p-1%float [PrimFloat.zero; PrimFloat.zero] 2 0x1.8p+0%float);
    [exact b64_worker_at_zero | simpl; lia].
Defined.

(** X11.  When the summation loop completes and
    [-len(results_list) <= idx < 0], the index counts from the end: the
    partial sum is stored at position [len(results_list) + idx] and returned,
    and the other elements are unchanged. *)
Theorem b64_partial_sum_negative_index (P : B64.platform) (x : float)
    (start_n end_n : Z) (epsilon : float) (results_list : list float) (idx : Z)
    (v : float) :
  B64.worker P x epsilon start_n end_n = Ok v ->
  - Z.of_nat (length results_list) <= idx < 0 ->
  exists results_list' : list float,
    B64.calculate_partial_sum P x start_n end_n epsilon results_list idx
      = Ok (v, results_list')
    /\ results_list' !! Z.to_nat (Z.of_nat (length results_list) + idx) = Some v
    /\ length results_list' = length results_list
    /\ forall j : nat,
        j <> Z.to_nat (Z.of_nat (length results_list) + idx) ->
        results_list' !! j = results_list !! j.
Proof.
  intros Hv Hidx.
  exists (<[Z.to_nat (Z.of_nat (length results_list) + idx) := v]> results_list).
  split.
  - rewrite b64_partial_sum_worker, Hv. simpl bind.
    now rewrite b64_setitem_negative.
  - split; [apply list_lookup_insert_eq; lia|].
    split; [apply length_insert|].
    intros j Hj. apply list_lookup_insert_ne. congruence.
Qed.

Lemma b64_partial_sum_negative_index_witness :
  exists results_list' : list float,
    B64.calculate_partial_sum B64.zero_argument_platform PrimFloat.zero 1 3
      0x1p-1%float [PrimFloat.zero; PrimFloat.zero] (-1)
      = Ok (0x1.8p+0%float, results_list')
    /\ results_list'
         !! Z.to_nat (Z.of_nat (length [PrimFloat.zero; PrimFloat.zero]) + -1)
       = Some 0x1.8p+0%float
    /\ length results_list' = length [PrimFloat.zero; PrimFloat.zero]
    /\ forall j : nat,
        j <> Z.to_nat (Z.of_nat (length [PrimFloat.zero; PrimFloat.zero]) + -1) ->
        results_list' !! j = [PrimFloat.zero; PrimFloat.zero] !! j.
Proof.
  apply (b64_partial_sum_negative_index B64.zero_argument_platform PrimFloat.zero
           1 3 0x1p-1%float [PrimFloat.zero; PrimFloat.zero] (-1) 0x1.8p+0%float);
    [exact b64_worker_at_zero | simpl; lia].
Defined.

Lemma b64_partial_loop_reaches_zero (P : B64.platform) (x : float) (end_n : Z)
    (epsilon : float) (d : nat) :
  forall (s : float) (n : Z),
    n = - Z.of_nat d ->
    0 <= end_n ->
    (forall k, n <= k < 0 -> B64.added P x epsilon k) ->
    B64.partial_loop P x end_n epsilon s n = Raise ZeroDivisionError.
Proof.
  induction d as [|d IH]; intros s n Hn Hend Hadded; rewrite b64_partial_loop_step;
    (destruct (Z_le_dec n end_n) as [_|Hgt]; [|lia]).
  - replace n with 0 by lia. now rewrite b64_term_zero.
  - destruct (Hadded n ltac:(lia)) as (t & Ht & Hf). rewrite Ht, Hf.
    apply IH; [lia | assumption |]. intros k Hk. apply Hadded. lia.
Qed.

(** X12.  A range that contains the index 0, all of whose terms before it
    are evaluated and added (in particular every range with
    [start_n = 0 <= end_n]), makes [calculate_partial_sum] and [worker] raise
    [ZeroDivisionError]; nothing is stored. *)
Theorem b64_range_through_zero_raises (P : B64.platform) (x : float)
    (start_n end_n : Z) (epsilon : float) (results_list : list float) (idx : Z) :
  start_n <= 0 <= end_n ->
  (forall k, start_n <= k < 0 -> B64.added P x epsilon k) ->
  B64.calculate_partial_sum P x start_n end_n epsilon results_list idx
    = Raise ZeroDivisionError
  /\ B64.worker P x epsilon start_n end_n = Raise ZeroDivisionError.
Proof.
  intros Hrange Hadded.
  assert (Hloop : B64.partial_loop P x end_n epsilon PrimFloat.zero start_n
                  = Raise ZeroDivisionError).
  { apply (b64_partial_loop_reaches_zero P x end_n epsilon (Z.to_nat (- start_n)));
      [lia | lia | assumption]. }
  unfold B64.calculate_partial_sum, B64.worker.
  rewrite b64_worker_loop_partial_loop, Hloop. split; reflexivity.
Qed.

Lemma b64_range_through_zero_raises_witness :
  B64.calculate_partial_sum B64.zero_argument_platform PrimFloat.zero (-1) 5
    0x1p-1%float [PrimFloat.zero] 0
    = Raise ZeroDivisionError
  /\ B64.worker B64.zero_argument_platform PrimFloat.zero 0x1p-1%float (-1) 5
     = Raise ZeroDivisionError.
Proof.
  apply (b64_range_through_zero_raises B64.zero_argument_platform PrimFloat.zero
           (-1) 5 0x1p-1%float [PrimFloat.zero] 0); [lia|].
  intros k Hk. assert (k = -1) as -> by lia.
  exists (-1)%float. split; reflexivity.
Defined.
